(** * realtime-dashboard: the feed aggregator, the client registry and the
    broadcast loop of [main.py], embedded and verified.

    The module polls three feeds, writes what it parsed into the shared
    dictionary [data_store], and pushes that dictionary to every websocket in
    the set [clients].  Coroutines are scheduled cooperatively, so another
    task runs only while one is suspended at an [await]; the embedding is a
    state machine whose events are the resumptions of the tasks. *)

From Stdlib Require Import ZArith NArith Ascii String DecimalString.
From stdpp Require Import base option list strings gmap.

Open Scope string_scope.
Set Warnings "-register-all,-clear-no-such-hyp".

(** ** Python values and exceptions *)

(** What [Response.json()] can return.  A [float] is carried by its [repr]
    (the shortest numeral reading back as that float), which names the float
    uniquely; the program does no arithmetic on it.  A dictionary keeps its
    insertion order, as Python's does; its keys are strings, as JSON's are. *)
Inductive pyval : Type :=
  | PNone
  | PBool (b : bool)
  | PInt (z : Z)
  | PFloat (repr : string)
  | PStr (s : string)
  | PList (l : list pyval)
  | PDict (d : list (string * pyval)).

(** The exceptions the code can meet.  All of them derive from [Exception]. *)
Inductive exn : Type :=
  | KeyError
  | IndexError
  | TypeError
  | AttributeError
  | JSONDecodeError
  | HTTPError.

Inductive result (A : Type) : Type :=
  | Ok (a : A)
  | Raise (e : exn).
Arguments Ok {A} a.
Arguments Raise {A} e.

Definition bind {A B} (r : result A) (k : A -> result B) : result B :=
  match r with
  | Ok a => k a
  | Raise e => Raise e
  end.

Notation "x <- r ;; k" := (bind r (fun x => k))
  (at level 100, r at next level, right associativity).

Fixpoint mapM {A B} (f : A -> result B) (l : list A) : result (list B) :=
  match l with
  | [] => Ok []
  | a :: l' => b <- f a ;; bs <- mapM f l' ;; Ok (b :: bs)
  end.

(** *** Dictionaries *)

Fixpoint dict_lookup {V} (k : string) (d : list (string * V)) : option V :=
  match d with
  | [] => None
  | (k', v) :: d' => if String.eqb k k' then Some v else dict_lookup k d'
  end.

(** [d[k] = v]: an existing key keeps its place, a new one goes last. *)
Fixpoint dict_set {V} (k : string) (v : V) (d : list (string * V))
  : list (string * V) :=
  match d with
  | [] => [(k, v)]
  | (k', v') :: d' =>
      if String.eqb k k' then (k, v) :: d' else (k', v') :: dict_set k v d'
  end.

(** *** The operations the parsers use *)

(** [v.get(k, default)]: only a dictionary has the method. *)
Definition py_get (v : pyval) (k : string) (dflt : pyval) : result pyval :=
  match v with
  | PDict d => Ok (default dflt (dict_lookup k d))
  | _ => Raise AttributeError
  end.

(** [v[k]] with a string key. *)
Definition py_item (v : pyval) (k : string) : result pyval :=
  match v with
  | PDict d =>
      match dict_lookup k d with
      | Some x => Ok x
      | None => Raise KeyError
      end
  | _ => Raise TypeError
  end.

(** [v[i]] with a non-negative integer literal.  No key of a dictionary read
    from JSON is an integer. *)
Definition py_index (v : pyval) (i : nat) : result pyval :=
  match v with
  | PList l =>
      match l !! i with
      | Some x => Ok x
      | None => Raise IndexError
      end
  | PStr s =>
      match String.get i s with
      | Some c => Ok (PStr (String c EmptyString))
      | None => Raise IndexError
      end
  | PDict _ => Raise KeyError
  | _ => Raise TypeError
  end.

(** What [for x in v] runs over: the items of a list, the keys of a
    dictionary, the characters of a string. *)
Definition py_iter (v : pyval) : result (list pyval) :=
  match v with
  | PList l => Ok l
  | PDict d => Ok (map (fun kv => PStr (fst kv)) d)
  | PStr s => Ok (map (fun c => PStr (String c EmptyString)) (String.list_ascii_of_string s))
  | _ => Raise TypeError
  end.

(** *** [str] and [repr] *)

Definition hex_digit (n : N) : ascii :=
  ascii_of_N (if (n <? 10)%N then 48 + n else 87 + n)%N.

Definition quote1 : ascii := ascii_of_nat 39.
Definition quote2 : ascii := ascii_of_nat 34.
Definition backslash : ascii := ascii_of_nat 92.

(** A character of a string stands for the code point of its number.  Below
    256 the unprintable ones are the controls, the no-break space and the soft
    hyphen. *)
Definition printable (n : N) : bool :=
  negb ((n <? 32) || ((127 <=? n) && (n <=? 160)) || (n =? 173))%N.

Definition repr_char (q c : ascii) : string :=
  let n := N_of_ascii c in
  if Ascii.eqb c q || Ascii.eqb c backslash then String backslash (String c "")
  else if (n =? 9)%N then String backslash "t"
  else if (n =? 10)%N then String backslash "n"
  else if (n =? 13)%N then String backslash "r"
  else if printable n then String c ""
  else String backslash
         (String "x" (String (hex_digit (n / 16)) (String (hex_digit (n mod 16)) ""))).

Definition has_char (c : ascii) (s : string) : bool :=
  existsb (Ascii.eqb c) (String.list_ascii_of_string s).

Definition repr_str (s : string) : string :=
  let q := if has_char quote1 s && negb (has_char quote2 s) then quote2 else quote1 in
  String q (String.concat "" (map (repr_char q) (String.list_ascii_of_string s)))
    ++ String q "".

Fixpoint py_repr (v : pyval) : string :=
  match v with
  | PNone => "None"
  | PBool true => "True"
  | PBool false => "False"
  | PInt z => NilZero.string_of_int (Z.to_int z)
  | PFloat r => r
  | PStr s => repr_str s
  | PList l => "[" ++ String.concat ", " (map py_repr l) ++ "]"
  | PDict d =>
      "{" ++ String.concat ", "
               (map (fun kv => let '(k, x) := kv in repr_str k ++ ": " ++ py_repr x) d)
          ++ "}"
  end.

(** What an f-string puts for [{v}]. *)
Definition py_str (v : pyval) : string :=
  match v with
  | PStr s => s
  | _ => py_repr v
  end.

(** ** The feed aggregator *)

(** The dictionary [data_store], with the sections it is created with. *)
Definition store : Type := list (string * pyval).

Definition data_store : store :=
  [("earthquakes", PList []); ("weather", PDict []); ("crypto", PDict [])].

(** What [await client.get(url)] gives back when it returns: the status and
    what [.json()] will do with the body. *)
Record response : Type := Response {
  status_code : Z;
  json : result pyval
}.

(** One cycle's feeds: for each request, the response or the exception it
    raises (a timeout, a refused connection). *)
Record feeds : Type := Feeds {
  eq_get : result response;
  weather_get : result response;
  crypto_get : result response
}.

(** The body of the loop that builds [quakes]. *)
Definition quake_line (feature : pyval) : result string :=
  props <- py_item feature "properties" ;;
  mag <- py_get props "mag" PNone ;;
  props' <- py_item feature "properties" ;;
  place <- py_get props' "place" PNone ;;
  Ok ("M" ++ py_str mag ++ " - " ++ py_str place).

Definition parse_quakes (eq_json : pyval) : result (list string) :=
  features <- py_get eq_json "features" (PList []) ;;
  items <- py_iter features ;;
  mapM quake_line items.

Definition parse_weather (w_json : pyval) : result pyval :=
  conditions <- py_item w_json "current_condition" ;;
  current <- py_index conditions 0 ;;
  temp <- py_get current "temp_F" PNone ;;
  descs <- py_item current "weatherDesc" ;;
  desc0 <- py_index descs 0 ;;
  desc <- py_item desc0 "value" ;;
  Ok (PDict [("temp_F", temp); ("description", desc)]).

Definition parse_crypto (c_json : pyval) : result pyval :=
  bpi <- py_item c_json "bpi" ;;
  usd_info <- py_item bpi "USD" ;;
  rate <- py_get usd_info "rate" PNone ;;
  Ok (PDict [("BTC_USD", rate)]).

(** Statements that write [data_store] and may raise: the writes made before
    an exception stay. *)
Definition task (A : Type) : Type := store -> store * result A.

Definition ret {A} (a : A) : task A := fun st => (st, Ok a).

Definition lift {A} (r : result A) : task A := fun st => (st, r).

Definition seq {A B} (t : task A) (k : A -> task B) : task B :=
  fun st =>
    match t st with
    | (st', Ok a) => k a st'
    | (st', Raise e) => (st', Raise e)
    end.

Notation "x <~ t ;; k" := (seq t (fun x => k))
  (at level 100, t at next level, right associativity).
Notation "t ;;; k" := (seq t (fun _ => k))
  (at level 100, right associativity).

(** [data_store[k] = v] *)
Definition store_set (k : string) (v : pyval) : task unit :=
  fun st => (dict_set k v st, Ok tt).

(** One request with its [if resp.status_code == 200:] block. *)
Definition fetch_one (get : result response) (section : string)
    (parse : pyval -> result pyval) : task unit :=
  resp <~ lift get ;;
  if (status_code resp =? 200)%Z then
    body <~ lift (json resp) ;;
    v <~ lift (parse body) ;;
    store_set section v
  else ret tt.

Definition quakes_value (eq_json : pyval) : result pyval :=
  quakes <- parse_quakes eq_json ;; Ok (PList (map PStr quakes)).

(** The [try] block of [fetch_feeds]. *)
Definition fetch_body (f : feeds) : task unit :=
  fetch_one (eq_get f) "earthquakes" quakes_value ;;;
  fetch_one (weather_get f) "weather" parse_weather ;;;
  fetch_one (crypto_get f) "crypto" parse_crypto.

(** The [try] with its [except Exception as e: print(...)]: the store after
    the block and the exception printed, if one was raised. *)
Definition fetch_phase (f : feeds) (st : store) : store * option exn :=
  match fetch_body f st with
  | (st', Ok _) => (st', None)
  | (st', Raise e) => (st', Some e)
  end.

(** [data_store[k]] *)
Definition section (k : string) (st : store) : option pyval := dict_lookup k st.

(** ** The client registry *)

(** A websocket object; each connection has its own. *)
Abbreviation handle := nat.

(** [clients.add(ws)] *)
Definition set_add (h : handle) (r : gset handle) : gset handle := {[h]} ∪ r.

(** [clients.remove(ws)]: Python's [set.remove] raises [KeyError] when the
    element is not in the set. *)
Definition set_remove (h : handle) (r : gset handle) : result (gset handle) :=
  if decide (h ∈ r) then Ok (r ∖ {[h]}) else Raise KeyError.

(** [list(clients)]: a list of the members, each once, in the set's order. *)
Definition set_list (r : gset handle) : list handle := elements r.

(** ** The tasks as one state machine *)

(** Where the task [fetch_feeds] is: at the top of its [while True], suspended
    in [ws.send_json] for the head of the handles still to serve, in
    [asyncio.sleep], or ended by an exception that left the coroutine. *)
Inductive phase : Type :=
  | Fetching
  | Broadcasting (todo : list handle)
  | Sleeping
  | Crashed (e : exn).

Inductive task_id : Type :=
  | LoopTask
  | HandlerTask (h : handle).

Record state : Type := State {
  st_store : store;                   (* data_store *)
  st_clients : gset handle;           (* clients *)
  st_loop : phase;
  st_open : gset handle;              (* handlers waiting in receive_text *)
  st_sent : list (handle * store);    (* what send_json delivered, oldest first *)
  st_printed : list exn;              (* what the except clause printed *)
  st_escaped : list (task_id * exn);  (* exceptions that ended a task *)
  st_added : gset handle;             (* handles whose add has completed *)
  st_removed : gset handle            (* of these, the ones whose remove has
                                         completed since their last add *)
}.

Definition init : state :=
  State data_store ∅ Fetching ∅ [] [] [] ∅ ∅.

(** What resumes a task.  [Fetch f]: the three requests of a cycle answer as
    [f] says.  [Push ok]: the pending [send_json] returns ([true]) or raises
    ([false]).  [Text], [Bytes] and [Disconnect]: what [receive_text] does
    with the next message of the client.  It returns the text of a text frame
    and raises [WebSocketDisconnect] on a disconnect; on a binary frame
    Starlette's [receive_text] evaluates [message["text"]], a key the message
    of a binary frame does not have, and raises [KeyError]. *)
Inductive event : Type :=
  | Connect (h : handle)
  | Text (h : handle) (payload : string)
  | Bytes (h : handle) (payload : string)
  | Disconnect (h : handle)
  | Fetch (f : feeds)
  | Push (ok : bool)
  | Wake.

(** The [for] loop moves to its next handle, or ends and the task sleeps. *)
Definition next_iteration (todo : list handle) : phase :=
  match todo with
  | [] => Sleeping
  | _ :: _ => Broadcasting todo
  end.

(** [websocket_endpoint] up to its first [receive_text]. *)
Definition connect (h : handle) (s : state) : state :=
  State (st_store s) (set_add h (st_clients s)) (st_loop s)
        ({[h]} ∪ st_open s) (st_sent s) (st_printed s) (st_escaped s)
        ({[h]} ∪ st_added s) (st_removed s ∖ {[h]}).

(** [receive_text] raises [KeyError]: the [except WebSocketDisconnect] does
    not catch it, so the handler ends with it and [clients.remove] is not
    run. *)
Definition receive_fails (h : handle) (s : state) : state :=
  State (st_store s) (st_clients s) (st_loop s) (st_open s ∖ {[h]})
        (st_sent s) (st_printed s) (st_escaped s ++ [(HandlerTask h, KeyError)])
        (st_added s) (st_removed s).

(** [except WebSocketDisconnect: clients.remove(websocket)]; the handler ends,
    with the [KeyError] when [remove] raises it. *)
Definition disconnect (h : handle) (s : state) : state :=
  match set_remove h (st_clients s) with
  | Ok r =>
      State (st_store s) r (st_loop s) (st_open s ∖ {[h]}) (st_sent s)
            (st_printed s) (st_escaped s) (st_added s) ({[h]} ∪ st_removed s)
  | Raise e =>
      State (st_store s) (st_clients s) (st_loop s) (st_open s ∖ {[h]})
            (st_sent s) (st_printed s) (st_escaped s ++ [(HandlerTask h, e)])
            (st_added s) (st_removed s)
  end.

(** The [try] block, its [except], then [list(clients)] and the first
    [send_json]. *)
Definition fetch (f : feeds) (s : state) : state :=
  let '(st', err) := fetch_phase f (st_store s) in
  State st' (st_clients s) (next_iteration (set_list (st_clients s)))
        (st_open s) (st_sent s) (st_printed s ++ option_list err)
        (st_escaped s) (st_added s) (st_removed s).

(** [send_json] returned: [h] has the store, the loop goes on. *)
Definition delivered (h : handle) (todo : list handle) (s : state) : state :=
  State (st_store s) (st_clients s) (next_iteration todo) (st_open s)
        (st_sent s ++ [(h, st_store s)]) (st_printed s) (st_escaped s)
        (st_added s) (st_removed s).

(** [except Exception: clients.remove(ws)].  The [remove] is inside the
    handler of the [try], so what it raises leaves the [for] and the [while]
    and ends the task. *)
Definition prune (h : handle) (todo : list handle) (s : state) : state :=
  match set_remove h (st_clients s) with
  | Ok r =>
      State (st_store s) r (next_iteration todo) (st_open s) (st_sent s)
            (st_printed s) (st_escaped s) (st_added s) ({[h]} ∪ st_removed s)
  | Raise e =>
      State (st_store s) (st_clients s) (Crashed e) (st_open s) (st_sent s)
            (st_printed s) (st_escaped s ++ [(LoopTask, e)])
            (st_added s) (st_removed s)
  end.

Definition wake (s : state) : state :=
  State (st_store s) (st_clients s) Fetching (st_open s) (st_sent s)
        (st_printed s) (st_escaped s) (st_added s) (st_removed s).

(** An event that no task is waiting for changes nothing: only an open
    handler receives, and the loop takes the event of the phase it is in. *)
Definition step (ev : event) (s : state) : state :=
  match ev with
  | Connect h => connect h s
  | Text h _ => s
  | Bytes h _ => if decide (h ∈ st_open s) then receive_fails h s else s
  | Disconnect h => if decide (h ∈ st_open s) then disconnect h s else s
  | Fetch f =>
      match st_loop s with
      | Fetching => fetch f s
      | _ => s
      end
  | Push ok =>
      match st_loop s with
      | Broadcasting (h :: todo) => if ok then delivered h todo s else prune h todo s
      | _ => s
      end
  | Wake =>
      match st_loop s with
      | Sleeping => wake s
      | _ => s
      end
  end.

Definition run (tr : list event) (s : state) : state :=
  foldl (fun s ev => step ev s) s tr.

(** ** How one request ends *)

(** The three ways through [fetch_one]: the section is written, the status
    guard skips it, or an exception leaves the block. *)
Inductive outcome : Type :=
  | Updated (v : pyval)
  | Skipped
  | Raised (e : exn).

Definition outcome_of (get : result response) (parse : pyval -> result pyval)
  : outcome :=
  match get with
  | Raise e => Raised e
  | Ok resp =>
      if (status_code resp =? 200)%Z then
        match json resp with
        | Raise e => Raised e
        | Ok body =>
            match parse body with
            | Raise e => Raised e
            | Ok v => Updated v
            end
        end
      else Skipped
  end.

Definition eq_outcome (f : feeds) : outcome := outcome_of (eq_get f) quakes_value.
Definition weather_outcome (f : feeds) : outcome := outcome_of (weather_get f) parse_weather.
Definition crypto_outcome (f : feeds) : outcome := outcome_of (crypto_get f) parse_crypto.

Definition failed (o : outcome) : bool :=
  match o with
  | Updated _ => false
  | _ => true
  end.

(** The section [k] holds [v] / holds what it held in [st]. *)
Definition gets (k : string) (v : pyval) (st' : store) : Prop :=
  section k st' = Some v.
Definition keeps (k : string) (st st' : store) : Prop :=
  section k st' = section k st.

(** The store a section's outcome leaves. *)
Definition apply_outcome (k : string) (o : outcome) (st : store) : store :=
  match o with
  | Updated v => dict_set k v st
  | _ => st
  end.

Definition raised (o : outcome) : bool :=
  match o with
  | Raised _ => true
  | _ => false
  end.

(** A section after a request that ended as [o]: the new value when it was
    written, the previous one otherwise. *)
Definition section_after (k : string) (o : outcome) (st st' : store) : Prop :=
  match o with
  | Updated v => gets k v st'
  | _ => keeps k st st'
  end.

Definition exactly_one_failed (f : feeds) : bool :=
  match failed (eq_outcome f), failed (weather_outcome f), failed (crypto_outcome f) with
  | true, false, false | false, true, false | false, false, true => true
  | _, _, _ => false
  end.

(** Every section follows its own request, whatever the other two did. *)
Definition isolated (f : feeds) (st : store) : Prop :=
  let st' := fst (fetch_phase f st) in
  section_after "earthquakes" (eq_outcome f) st st'
  ∧ section_after "weather" (weather_outcome f) st st'
  ∧ section_after "crypto" (crypto_outcome f) st st'.

(** ** Sample feeds *)

Definition ok_response (body : pyval) : result response :=
  Ok (Response 200 (Ok body)).

Definition feature (mag place : pyval) : pyval :=
  PDict [("type", PStr "Feature");
         ("properties", PDict [("mag", mag); ("place", place)])].

Definition sample_quakes : pyval :=
  PDict [("type", PStr "FeatureCollection");
         ("features",
          PList [feature (PFloat "4.5") (PStr "10km N of X");
                 feature (PFloat "2.1") (PStr "5km S of Y")])].

Definition sample_weather : pyval :=
  PDict [("current_condition",
          PList [PDict [("temp_F", PInt 72);
                        ("weatherDesc", PList [PDict [("value", PStr "Sunny")]])]])].

Definition sample_crypto : pyval :=
  PDict [("bpi", PDict [("USD", PDict [("code", PStr "USD");
                                       ("rate", PStr "64,523.10")])])].

Definition sample_feeds : feeds :=
  Feeds (ok_response sample_quakes) (ok_response sample_weather)
        (ok_response sample_crypto).

(** The seismic request times out; the other two would answer. *)
Definition seismic_down : feeds :=
  Feeds (Raise HTTPError) (ok_response sample_weather) (ok_response sample_crypto).

(** The weather service answers 200 with a body that is not what
    [parse_weather] indexes. *)
Definition weather_malformed : feeds :=
  Feeds (ok_response sample_quakes) (ok_response (PDict [("current_condition", PList [])]))
        (ok_response sample_crypto).

(** The weather service answers 503. *)
Definition weather_unavailable : feeds :=
  Feeds (ok_response sample_quakes) (Ok (Response 503 (Raise JSONDecodeError)))
        (ok_response sample_crypto).

(** A store left by earlier cycles. *)
Definition stale_store : store :=
  [("earthquakes", PList [PStr "M1.0 - 3km E of Z"; PStr "M0.8 - 7km W of Z"]);
   ("weather", PDict [("temp_F", PInt 55); ("description", PStr "Rain")]);
   ("crypto", PDict [("BTC_USD", PStr "60,000.00")])].

(** ** The shape of the store *)

(** Exactly the three sections, in the order they were created; a list of
    strings, a dictionary and a dictionary. *)
Definition well_shaped (st : store) : Prop :=
  map fst st = ["earthquakes"; "weather"; "crypto"]
  ∧ (∃ lines, section "earthquakes" st = Some (PList (map PStr lines)))
  ∧ (∃ d, section "weather" st = Some (PDict d))
  ∧ (∃ d, section "crypto" st = Some (PDict d)).

(** ** Traces *)


(** A text message received from client [c]. *)
Definition text_of (c : handle) (ev : event) : bool :=
  match ev with
  | Text h _ => bool_decide (h = c)
  | _ => false
  end.

(** A message of either kind received from client [c]. *)
Definition sent_by (c : handle) (ev : event) : bool :=
  match ev with
  | Text h _ | Bytes h _ => bool_decide (h = c)
  | _ => false
  end.

(** The trace without the text messages of client [c]. *)
Definition without_text (c : handle) (tr : list event) : list event :=
  filter (λ ev, text_of c ev = false) tr.

(** The trace in which client [c] sends nothing. *)
Definition silent (c : handle) (tr : list event) : list event :=
  filter (λ ev, sent_by c ev = false) tr.


(** Two clients; the copy is [2; 1].  While the loop waits in the send to
    client 2, client 1 disconnects and its handler deregisters it; the send to
    2 returns; the send to 1 fails. *)
Definition prune_after_disconnect : list event :=
  [Connect 1; Connect 2; Fetch sample_feeds; Disconnect 1; Push true; Push false].

(** The send to client 1 fails and the loop prunes it; then its handler sees
    the disconnect. *)
Definition disconnect_after_prune : list event :=
  [Connect 1; Fetch sample_feeds; Push false; Disconnect 1].

(** Three clients; the copy is [2; 3; 1].  While the loop waits in the send
    to client 2, client 3 disconnects; the send to 2 returns; the send to 3
    fails. *)
Definition three_clients_one_leaves : list event :=
  [Connect 1; Connect 2; Connect 3; Fetch sample_feeds;
   Disconnect 3; Push true; Push false].


(** The registry is the handles added and not removed since. *)
Definition registry_inv (s : state) : Prop :=
  st_clients s = st_added s ∖ st_removed s ∧ st_removed s ⊆ st_added s.

(** Two clients connected, the loop about to fetch. *)
Definition two_connected : state := run [Connect 1; Connect 2] init.

(** Every feed fails: a timeout, a 503, a body that is not JSON. *)
Definition all_down : feeds :=
  Feeds (Raise HTTPError) (Ok (Response 503 (Raise JSONDecodeError)))
        (Ok (Response 200 (Raise JSONDecodeError))).

(** ** More sample data *)

(** A 200 answer whose body is [body]. *)
Definition seismic_only (body : pyval) : feeds :=
  Feeds (ok_response body) (ok_response sample_weather) (ok_response sample_crypto).

(** A feature without "properties" after a good one. *)
Definition one_bad_feature : pyval :=
  PDict [("features",
          PList [feature (PFloat "4.5") (PStr "10km N of X");
                 PDict [("type", PStr "Feature")]])].

(** Every service answers, none with 200. *)
Definition all_refused : feeds :=
  Feeds (Ok (Response 404 (Ok sample_quakes)))
        (Ok (Response 503 (Raise JSONDecodeError)))
        (Ok (Response 301 (Ok sample_crypto))).

(** Every handler that waits in [receive_text] has added its handle. *)
Definition handler_inv (s : state) : Prop :=
  st_open s ⊆ st_added s.

(** Client 1 connected; the send to it failed and the loop pruned it. *)
Definition pruned_one : list event :=
  [Connect 1; Fetch sample_feeds; Push false].

(** The state is inside one pass over [todo], or the loop has ended. *)
Definition in_cycle (todo : list handle) (s : state) : Prop :=
  st_loop s = next_iteration todo ∨ ∃ e, st_loop s = Crashed e.

(** While the loop serves [todo], each of its handles is registered. *)
Definition todo_registered (s : state) : Prop :=
  match st_loop s with
  | Broadcasting todo => NoDup todo ∧ ∀ h, h ∈ todo → h ∈ st_clients s
  | Crashed _ => False
  | _ => True
  end.

(** Client 3 connects while the loop is serving its copy [2; 1]. *)
Definition late_joiner : list event :=
  [Push true; Connect 3; Push true; Push true].

(** Two cycles in which every feed fails and every send succeeds, with
    clients coming and going. *)
Definition feeds_down_sends_fine : list event :=
  [Connect 1; Fetch all_down; Connect 2; Push true; Wake; Disconnect 1;
   Fetch seismic_down; Push true; Wake].

(** Sends fail and a client sends a binary frame, but no handler sees a
    disconnect. *)
Definition sends_fail_nobody_leaves : list event :=
  [Connect 1; Connect 2; Fetch sample_feeds; Connect 3; Bytes 2 "x"; Push false;
   Push false; Wake; Fetch all_down; Push false].

(** Clients 1 and 2 connect; client 1 sends a binary frame and later leaves;
    then a cycle runs.  The handler of client 1 is gone when it leaves. *)
Definition binary_frame_then_leaves : list event :=
  [Connect 1; Connect 2; Bytes 1 "x"; Disconnect 1; Fetch sample_feeds].

(** * Properties *)

(** ** Formatting *)

Example py_str_float : py_str (PFloat "4.5") = "4.5".
Proof. reflexivity. Qed.

Example py_str_int : py_str (PInt (-72)) = "-72".
Proof. reflexivity. Qed.

Example py_str_list :
  py_str (PList [PStr "it's"; PNone; PDict [("a", PBool true)]])
  = String "[" (String quote2 ("it's" ++ String quote2 ", None, {'a': True}]")).
Proof. reflexivity. Qed.

(** ** Dictionary lemmas *)

Lemma dict_lookup_set_eq {V} (k : string) (v : V) d :
  dict_lookup k (dict_set k v d) = Some v.
Proof.
  induction d as [|[k' v'] d IH]; simpl.
  - by rewrite String.eqb_refl.
  - destruct (String.eqb k k') eqn:E; simpl.
    + by rewrite String.eqb_refl.
    + by rewrite E.
Qed.

Lemma dict_lookup_set_ne {V} (k k' : string) (v : V) d :
  k ≠ k' → dict_lookup k' (dict_set k v d) = dict_lookup k' d.
Proof.
  intros Hne. induction d as [|[k0 v0] d IH]; simpl.
  - destruct (String.eqb k' k) eqn:E; [|done].
    apply String.eqb_eq in E. congruence.
  - destruct (String.eqb k k0) eqn:E; simpl.
    + apply String.eqb_eq in E. subst k0.
      destruct (String.eqb k' k) eqn:E'; [|done].
      apply String.eqb_eq in E'. congruence.
    + by rewrite IH.
Qed.

Lemma dict_set_keys {V} (k : string) (v : V) d :
  is_Some (dict_lookup k d) → map fst (dict_set k v d) = map fst d.
Proof.
  induction d as [|[k' v'] d IH]; simpl.
  - by intros [? ?].
  - destruct (String.eqb k k') eqn:E; simpl.
    + apply String.eqb_eq in E. by subst.
    + intros H. by rewrite IH.
Qed.

(** ** What the fetch phase computes *)

Lemma fetch_one_outcome get k parse st :
  fetch_one get k parse st =
    match outcome_of get parse with
    | Updated v => (dict_set k v st, Ok tt)
    | Skipped => (st, Ok tt)
    | Raised e => (st, Raise e)
    end.
Proof.
  unfold fetch_one, outcome_of, seq, lift, ret, store_set.
  destruct get as [resp|e]; [|done].
  destruct (status_code resp =? 200)%Z; [|done].
  destruct (json resp) as [body|e]; [|done].
  by destruct (parse body).
Qed.

(** The fetch phase by outcomes: the sections are written in the order
    seismic, weather, currency, up to the first request that raises. *)
Lemma fetch_phase_outcomes f st :
  fetch_phase f st =
    match eq_outcome f with
    | Raised e => (st, Some e)
    | o1 =>
        let st1 := apply_outcome "earthquakes" o1 st in
        match weather_outcome f with
        | Raised e => (st1, Some e)
        | o2 =>
            let st2 := apply_outcome "weather" o2 st1 in
            match crypto_outcome f with
            | Raised e => (st2, Some e)
            | o3 => (apply_outcome "crypto" o3 st2, None)
            end
        end
    end.
Proof.
  unfold fetch_phase, fetch_body, seq.
  rewrite !fetch_one_outcome.
  unfold eq_outcome, weather_outcome, crypto_outcome.
  destruct (outcome_of (eq_get f) quakes_value); simpl; [| |done].
  all: rewrite !fetch_one_outcome.
  all: destruct (outcome_of (weather_get f) parse_weather); simpl; [| |done].
  all: rewrite !fetch_one_outcome.
  all: by destruct (outcome_of (crypto_get f) parse_crypto).
Qed.

Lemma section_set_eq k v st : section k (dict_set k v st) = Some v.
Proof. apply dict_lookup_set_eq. Qed.

Lemma section_set_ne k k' v st :
  k ≠ k' → section k' (dict_set k v st) = section k' st.
Proof. apply dict_lookup_set_ne. Qed.

Lemma section_apply_ne k k' o st :
  k ≠ k' → section k' (apply_outcome k o st) = section k' st.
Proof. intros Hne. destruct o; simpl; [by apply section_set_ne|done|done]. Qed.

Lemma section_after_apply k o st : section_after k o st (apply_outcome k o st).
Proof. destruct o; simpl; [apply section_set_eq|done|done]. Qed.

Lemma mapM_Forall2 {A B} (f : A → result B) l bs :
  mapM f l = Ok bs → Forall2 (λ a b, f a = Ok b) l bs.
Proof.
  revert bs. induction l as [|a l IH]; simpl; intros bs H.
  - injection H as <-. constructor.
  - destruct (f a) as [b|e] eqn:Ea; simpl in H; [|done].
    destruct (mapM f l) as [bs'|e]; simpl in H; [|done].
    injection H as <-. constructor; [done|by apply IH].
Qed.

(** ** The seismic section *)

(** The section "earthquakes" is written before the other two requests are
    made, so nothing they do can touch it. *)
Ltac sections :=
  unfold section_after, gets, keeps; simpl;
  repeat first
    [ done
    | apply section_set_eq
    | rewrite section_set_eq
    | rewrite section_set_ne by discriminate ].

Lemma earthquakes_after_fetch f st :
  section_after "earthquakes" (eq_outcome f) st (fst (fetch_phase f st)).
Proof.
  rewrite fetch_phase_outcomes.
  destruct (eq_outcome f), (weather_outcome f), (crypto_outcome f); sections.
Qed.

(** C7. After a seismic request that answers 200 with a body that parses to
    [quakes], the section "earthquakes" is exactly [quakes], one string per
    item of "features" and in their order, whatever the section held before
    and whatever the two later requests do. *)
Theorem seismic_replaced_wholesale f st resp body quakes :
  eq_get f = Ok resp →
  status_code resp = 200%Z →
  json resp = Ok body →
  parse_quakes body = Ok quakes →
  section "earthquakes" (fst (fetch_phase f st)) = Some (PList (map PStr quakes))
  ∧ ∃ features items,
      py_get body "features" (PList []) = Ok features
      ∧ py_iter features = Ok items
      ∧ Forall2 (λ item line, quake_line item = Ok line) items quakes.
Proof.
  intros Hget Hst Hjson Hparse. split.
  - pose proof (earthquakes_after_fetch f st) as H.
    unfold eq_outcome, outcome_of, quakes_value in H.
    rewrite Hget, Hst, Hjson, Hparse in H. exact H.
  - unfold parse_quakes in Hparse.
    destruct (py_get body "features" (PList [])) as [features|e];
      simpl in Hparse; [|done].
    destruct (py_iter features) as [items|e] eqn:Hit; simpl in Hparse; [|done].
    exists features, items. split_and!; [done..|].
    by apply mapM_Forall2.
Qed.

Lemma seismic_replaced_wholesale_witness :
  section "earthquakes" (fst (fetch_phase weather_malformed stale_store))
  = Some (PList [PStr "M4.5 - 10km N of X"; PStr "M2.1 - 5km S of Y"]).
Proof.
  exact (proj1 (seismic_replaced_wholesale weather_malformed stale_store
                  (Response 200 (Ok sample_quakes)) sample_quakes
                  ["M4.5 - 10km N of X"; "M2.1 - 5km S of Y"]
                  eq_refl eq_refl eq_refl eq_refl)).
Defined.

(** ** Parsing and formatting *)

(** C6. A seismic response with magnitudes 4.5 and 2.1 at "10km N of X" and
    "5km S of Y" gives the section ["M4.5 - 10km N of X", "M2.1 - 5km S of
    Y"]; a weather response with temp_F 72 and description "Sunny" gives
    {temp_F: 72, description: "Sunny"}; a currency response with rate
    "64,523.10" gives {BTC_USD: "64,523.10"}; from any previous store. *)
Theorem sample_feeds_sections (st : store) :
  let st' := fst (fetch_phase sample_feeds st) in
  section "earthquakes" st'
    = Some (PList [PStr "M4.5 - 10km N of X"; PStr "M2.1 - 5km S of Y"])
  ∧ section "weather" st'
    = Some (PDict [("temp_F", PInt 72); ("description", PStr "Sunny")])
  ∧ section "crypto" st' = Some (PDict [("BTC_USD", PStr "64,523.10")]).
Proof.
  intros st'. subst st'. rewrite fetch_phase_outcomes.
  change (eq_outcome sample_feeds)
    with (Updated (PList [PStr "M4.5 - 10km N of X"; PStr "M2.1 - 5km S of Y"])).
  change (weather_outcome sample_feeds)
    with (Updated (PDict [("temp_F", PInt 72); ("description", PStr "Sunny")])).
  change (crypto_outcome sample_feeds)
    with (Updated (PDict [("BTC_USD", PStr "64,523.10")])).
  split_and!; sections.
Qed.

(** ** One feed fails *)

(** Requests are made in the order seismic, weather, currency, inside one
    [try]: a request that raises ends the block, and the requests after it
    are not made. *)
Lemma fetch_isolated_without_raise f st :
  raised (eq_outcome f) = false →
  raised (weather_outcome f) = false →
  raised (crypto_outcome f) = false →
  isolated f st.
Proof.
  unfold isolated. rewrite fetch_phase_outcomes.
  destruct (eq_outcome f), (weather_outcome f), (crypto_outcome f);
    try discriminate; intros _ _ _; split_and!; sections.
Qed.

Lemma fetch_seismic_raises f st :
  raised (eq_outcome f) = true → fst (fetch_phase f st) = st.
Proof.
  rewrite fetch_phase_outcomes. by destruct (eq_outcome f).
Qed.

Lemma fetch_weather_raises f st :
  raised (eq_outcome f) = false →
  raised (weather_outcome f) = true →
  fst (fetch_phase f st) = apply_outcome "earthquakes" (eq_outcome f) st.
Proof.
  rewrite fetch_phase_outcomes.
  by destruct (eq_outcome f), (weather_outcome f).
Qed.

Lemma fetch_crypto_raises f st :
  raised (eq_outcome f) = false →
  raised (weather_outcome f) = false →
  raised (crypto_outcome f) = true →
  fst (fetch_phase f st)
  = apply_outcome "weather" (weather_outcome f)
      (apply_outcome "earthquakes" (eq_outcome f) st).
Proof.
  rewrite fetch_phase_outcomes.
  by destruct (eq_outcome f), (weather_outcome f), (crypto_outcome f).
Qed.

(** C1, as the code has it.  In a cycle where exactly one request fails: when
    it fails by its status, the two other sections hold their new values and
    its own the previous one; when it fails by raising (the request itself,
    [json()] or the parsing), the sections of the requests made before it
    hold their new values, and its own section and those of the requests
    after it hold their previous ones. *)
Theorem one_failure_sections f st :
  exactly_one_failed f = true →
  let st' := fst (fetch_phase f st) in
  (raised (eq_outcome f) = false → raised (weather_outcome f) = false →
   raised (crypto_outcome f) = false → isolated f st)
  ∧ (raised (eq_outcome f) = true →
     keeps "earthquakes" st st' ∧ keeps "weather" st st' ∧ keeps "crypto" st st')
  ∧ (raised (weather_outcome f) = true →
     section_after "earthquakes" (eq_outcome f) st st'
     ∧ keeps "weather" st st' ∧ keeps "crypto" st st')
  ∧ (raised (crypto_outcome f) = true →
     section_after "earthquakes" (eq_outcome f) st st'
     ∧ section_after "weather" (weather_outcome f) st st'
     ∧ keeps "crypto" st st').
Proof.
  intros Hone st'. subst st'. split_and!.
  - apply fetch_isolated_without_raise.
  - intros H. by rewrite fetch_seismic_raises.
  - intros H. unfold exactly_one_failed in Hone.
    rewrite fetch_weather_raises; [| |done].
    + destruct (eq_outcome f); split_and!; sections.
    + by destruct (eq_outcome f), (weather_outcome f).
  - intros H. unfold exactly_one_failed in Hone.
    rewrite fetch_crypto_raises; [| | |done].
    + destruct (eq_outcome f), (weather_outcome f); split_and!; sections.
    + by destruct (eq_outcome f), (weather_outcome f), (crypto_outcome f).
    + by destruct (eq_outcome f), (weather_outcome f), (crypto_outcome f).
Qed.

Lemma one_failure_sections_witness :
  exactly_one_failed seismic_down = true
  ∧ keeps "weather" stale_store (fst (fetch_phase seismic_down stale_store)).
Proof.
  split; [reflexivity|].
  exact (proj1 (proj2 (proj1 (proj2 (one_failure_sections seismic_down stale_store
                                       eq_refl)) eq_refl))).
Defined.

(** C1 as stated fails: the seismic request raises, the weather and currency
    services would have answered, and their sections are not written. *)
Lemma one_failure_not_isolated :
  exactly_one_failed seismic_down = true ∧ ¬ isolated seismic_down stale_store.
Proof.
  split; [reflexivity|].
  intros (_ & Hw & _). vm_compute in Hw. discriminate.
Qed.

(** ** Runs of the machine *)

Lemma run_snoc tr ev s : run (tr ++ [ev]) s = step ev (run tr s).
Proof. unfold run. by rewrite foldl_app. Qed.

Lemma run_app tr1 tr2 s : run (tr1 ++ tr2) s = run tr2 (run tr1 s).
Proof. unfold run. by rewrite foldl_app. Qed.

Lemma run_cons ev tr s : run (ev :: tr) s = run tr (step ev s).
Proof. done. Qed.

(** What holds at [s] and is kept by every step holds after every run. *)
Lemma run_invariant (P : state → Prop) s :
  P s → (∀ ev s', P s' → P (step ev s')) → ∀ tr, P (run tr s).
Proof.
  intros H0 Hstep tr. induction tr as [|ev tr IH] using rev_ind; [done|].
  rewrite run_snoc. by apply Hstep.
Qed.

(** ** The shape of the store *)

Ltac binds H :=
  repeat match type of H with
         | context [bind ?r _] =>
             let E := fresh "E" in destruct r eqn:E; simpl in H; [|discriminate H]
         end.

Lemma quakes_value_shape body v :
  quakes_value body = Ok v → ∃ lines, v = PList (map PStr lines).
Proof.
  unfold quakes_value. intros H. binds H. injection H as <-. eauto.
Qed.

Lemma parse_weather_shape body v : parse_weather body = Ok v → ∃ d, v = PDict d.
Proof.
  unfold parse_weather. intros H. binds H. injection H as <-. eauto.
Qed.

Lemma parse_crypto_shape body v : parse_crypto body = Ok v → ∃ d, v = PDict d.
Proof.
  unfold parse_crypto. intros H. binds H. injection H as <-. eauto.
Qed.

Lemma outcome_of_updated get parse v :
  outcome_of get parse = Updated v →
  ∃ resp body, get = Ok resp ∧ status_code resp = 200%Z
               ∧ json resp = Ok body ∧ parse body = Ok v.
Proof.
  unfold outcome_of. intros H.
  destruct get as [resp|e]; [|done].
  destruct (status_code resp =? 200)%Z eqn:Hs; [|done].
  destruct (json resp) as [body|e] eqn:Hj; [|done].
  destruct (parse body) as [v'|e] eqn:Hp; [|done].
  injection H as <-. exists resp, body. split_and!; [done| |done|done].
  by apply Z.eqb_eq.
Qed.

Lemma fetch_phase_well_shaped f st :
  well_shaped st → well_shaped (fst (fetch_phase f st)).
Proof.
  intros (Hkeys & Hq & Hw & Hc).
  destruct st as [|[k1 v1] [|[k2 v2] [|[k3 v3] [|? ?]]]]; try discriminate Hkeys.
  simpl in Hkeys. injection Hkeys as -> -> ->.
  rewrite fetch_phase_outcomes.
  assert (∀ v, eq_outcome f = Updated v → ∃ lines, v = PList (map PStr lines)) as Sq.
  { intros v (? & body & _ & _ & _ & H)%outcome_of_updated.
    by eapply quakes_value_shape. }
  assert (∀ v, weather_outcome f = Updated v → ∃ d, v = PDict d) as Sw.
  { intros v (? & body & _ & _ & _ & H)%outcome_of_updated.
    by eapply parse_weather_shape. }
  assert (∀ v, crypto_outcome f = Updated v → ∃ d, v = PDict d) as Sc.
  { intros v (? & body & _ & _ & _ & H)%outcome_of_updated.
    by eapply parse_crypto_shape. }
  destruct (eq_outcome f) as [q| |?]; [destruct (Sq q eq_refl) as [? ->]| |];
    (destruct (weather_outcome f) as [w| |?]; [destruct (Sw w eq_refl) as [? ->]| |]);
    (destruct (crypto_outcome f) as [c| |?]; [destruct (Sc c eq_refl) as [? ->]| |]);
    simpl; (split_and!; [done|by eauto..]).
Qed.

(** C10. In every reachable state the store has exactly the sections
    "earthquakes", "weather" and "crypto": a list of strings and two
    dictionaries.  Every event keeps it so, whatever the feeds answer. *)
Theorem store_shape_invariant (tr : list event) :
  well_shaped (st_store (run tr init)).
Proof.
  apply (run_invariant (λ s, well_shaped (st_store s))).
  - split_and!; [done|by exists []|by eexists..].
  - intros ev s H. destruct ev as [h|h m|h b|h|f|ok|]; simpl.
    + done.
    + done.
    + by case_decide.
    + case_decide; [|done]. unfold disconnect. by destruct (set_remove _ _).
    + destruct (st_loop s); try done.
      unfold fetch. pose proof (fetch_phase_well_shaped f (st_store s) H) as H'.
      by destruct (fetch_phase f (st_store s)).
    + destruct (st_loop s) as [|[|h todo]| |]; try done.
      destruct ok; [done|]. unfold prune. by destruct (set_remove _ _).
    + by destruct (st_loop s).
Qed.

(** ** The registry *)

Lemma set_remove_present h (r : gset handle) :
  h ∈ r → set_remove h r = Ok (r ∖ {[h]}).
Proof. intros H. unfold set_remove. by rewrite decide_True. Qed.

Lemma set_remove_absent h (r : gset handle) :
  h ∉ r → set_remove h r = Raise KeyError.
Proof. intros H. unfold set_remove. by rewrite decide_False. Qed.

(** C2.  [remove] on a handle that is not in the registry raises [KeyError]
    instead of doing nothing, on both paths: in the loop, pruning a client
    whose handler has deregistered it ends the task [fetch_feeds]; in the
    handler, deregistering a client the loop has pruned ends the handler with
    the exception. *)
Theorem remove_absent_raises :
  set_remove 1 ∅ = Raise KeyError
  ∧ st_escaped (run prune_after_disconnect init) = [(LoopTask, KeyError)]
  ∧ st_escaped (run disconnect_after_prune init) = [(HandlerTask 1, KeyError)].
Proof. by vm_compute. Qed.

(** ** The loop *)

(** The fetch phase cannot end the loop: whatever the feeds do, the loop goes
    on to its copy of the registry. *)
Lemma fetch_step_loop f s :
  st_loop s = Fetching →
  st_loop (step (Fetch f) s) = next_iteration (set_list (st_clients s)).
Proof.
  intros H. simpl. rewrite H. unfold fetch. by destruct (fetch_phase f (st_store s)).
Qed.

Lemma next_iteration_not_crashed todo e : next_iteration todo ≠ Crashed e.
Proof. by destruct todo. Qed.

(** The one way for the loop to end: a send fails for a handle that is no
    longer in the registry. *)
Lemma crash_only_by_prune ev s e :
  st_loop (step ev s) = Crashed e →
  (∀ e', st_loop s ≠ Crashed e') →
  ev = Push false
  ∧ ∃ h todo, st_loop s = Broadcasting (h :: todo) ∧ h ∉ st_clients s.
Proof.
  intros Hc Hn.
  assert (∀ todo, next_iteration todo = Crashed e → False) as Hni
    by (intros todo; apply next_iteration_not_crashed).
  destruct ev as [h|h m|h b|h|f|ok|]; simpl in Hc.
  - exfalso. by eapply (Hn e).
  - exfalso. by eapply (Hn e).
  - exfalso. destruct (decide (h ∈ st_open s)); by eapply (Hn e).
  - exfalso. destruct (decide (h ∈ st_open s)); [|by eapply (Hn e)].
    unfold disconnect in Hc. destruct (set_remove h (st_clients s)); by eapply (Hn e).
  - exfalso. destruct (st_loop s) eqn:E; try congruence; try (by eapply (Hn e)).
    unfold fetch in Hc. destruct (fetch_phase f (st_store s)). simpl in Hc.
    by eapply Hni.
  - destruct (st_loop s) as [|[|h todo]| |] eqn:E;
      try congruence; try (exfalso; by eapply (Hn e)).
    destruct ok; [exfalso; simpl in Hc; by eapply Hni|].
    split; [done|]. exists h, todo. split; [done|].
    unfold prune, set_remove in Hc.
    destruct (decide (h ∈ st_clients s)); [|done].
    exfalso. simpl in Hc. by eapply Hni.
  - exfalso. destruct (st_loop s) eqn:E; simpl in Hc; congruence.
Qed.

(** Once the task has ended, nothing resumes it. *)
Lemma crashed_forever e tr s :
  st_loop s = Crashed e →
  st_loop (run tr s) = Crashed e ∧ st_sent (run tr s) = st_sent s.
Proof.
  revert s. induction tr as [|ev tr IH]; intros s H; [done|].
  rewrite run_cons.
  assert (st_loop (step ev s) = Crashed e ∧ st_sent (step ev s) = st_sent s) as [H1 H2].
  { destruct ev as [h|h m|h b|h|f|ok|]; simpl; rewrite ?H; try done.
    - by case_decide.
    - case_decide; [|done]. unfold disconnect. by destruct (set_remove _ _). }
  destruct (IH _ H1) as [? ?]. split; [done|congruence].
Qed.

(** C3.  An exception does escape the broadcast phase: client 1 is
    deregistered by its handler while the loop waits in the send to client 2,
    the send to client 1 then fails, [remove] raises [KeyError] inside the
    [except] clause, and the task ends; no later event brings it to its sleep
    or to another cycle. *)
Theorem loop_crashes (tr : list event) :
  st_loop (run (prune_after_disconnect ++ tr) init) = Crashed KeyError
  ∧ st_escaped (run prune_after_disconnect init) = [(LoopTask, KeyError)]
  ∧ st_loop (run (prune_after_disconnect ++ tr) init) ≠ Sleeping.
Proof.
  assert (st_loop (run (prune_after_disconnect ++ tr) init) = Crashed KeyError) as H.
  { rewrite run_app. by apply crashed_forever. }
  split_and!; [done|by vm_compute|by rewrite H].
Qed.

(** C4.  A failed push does keep another client from its snapshot: the copy
    is [2; 3; 1], client 2 is served, client 3 has deregistered itself when
    the send to it fails, and client 1, still registered, is sent nothing, in
    this cycle or later. *)
Theorem push_failure_stops_broadcast (tr : list event) :
  let s := run (three_clients_one_leaves ++ tr) init in
  st_loop (run [Connect 1; Connect 2; Connect 3; Fetch sample_feeds] init)
  = Broadcasting [2; 3; 1]
  ∧ st_loop s = Crashed KeyError
  ∧ map fst (st_sent s) = [2]
  ∧ 1 ∈ st_clients (run three_clients_one_leaves init).
Proof.
  split_and!.
  - by vm_compute.
  - rewrite run_app. by apply crashed_forever.
  - rewrite run_app.
    by rewrite (proj2 (crashed_forever KeyError tr
                         (run three_clients_one_leaves init) eq_refl)).
  - by vm_compute.
Qed.

(** ** A broadcast no handler interrupts *)


(** ** The feeds and the broadcast *)




Lemma fetch_step_store f s :
  st_loop s = Fetching →
  st_store (step (Fetch f) s) = fst (fetch_phase f (st_store s))
  ∧ st_clients (step (Fetch f) s) = st_clients s
  ∧ st_sent (step (Fetch f) s) = st_sent s.
Proof.
  intros H. simpl. rewrite H. unfold fetch.
  by destruct (fetch_phase f (st_store s)).
Qed.



(** ** The membership copy *)

Lemma step_registry_inv ev s : registry_inv s → registry_inv (step ev s).
Proof.
  unfold registry_inv. intros [Hc Hr].
  destruct ev as [h|h m|h b|h|f|ok|]; simpl.
  - unfold set_add. rewrite Hc. split; [|set_solver].
    apply set_eq. intros x. destruct (decide (x = h)); set_solver.
  - done.
  - by case_decide.
  - case_decide; [|done]. unfold disconnect, set_remove.
    case_decide; simpl; [|done]. rewrite Hc in *. set_solver.
  - destruct (st_loop s); try done.
    unfold fetch. by destruct (fetch_phase f (st_store s)).
  - destruct (st_loop s) as [|[|h todo]| |]; try done.
    destruct ok; [done|]. unfold prune, set_remove.
    case_decide; simpl; [|done]. rewrite Hc in *. set_solver.
  - by destruct (st_loop s).
Qed.





(** ** What a client sends *)

Lemma text_step h m s : step (Text h m) s = s.
Proof. done. Qed.

(** The result of [receive_text] is dropped: text messages change nothing. *)
Lemma text_messages_ignored (c : handle) (tr : list event) (s : state) :
  run tr s = run (without_text c tr) s.
Proof.
  revert s. induction tr as [|ev tr IH]; intros s; [done|].
  unfold without_text. destruct (text_of c ev) eqn:E.
  - rewrite filter_cons_False by congruence.
    destruct ev; try discriminate. rewrite run_cons, text_step. apply IH.
  - rewrite filter_cons_True by done. rewrite !run_cons. apply IH.
Qed.

(** C9.  A payload does change what can be observed.  Client 1 sends a
    binary frame: [receive_text] raises [KeyError], which the [except
    WebSocketDisconnect] does not catch, so the handler ends with it and
    never runs [clients.remove].  When the client leaves, it stays
    registered and the next cycle's copy holds it; in the run where it sent
    nothing, its handler deregisters it and the copy does not hold it. *)
Theorem binary_frame_ends_handler :
  let with_frame := run binary_frame_then_leaves init in
  let without := run (silent 1 binary_frame_then_leaves) init in
  silent 1 binary_frame_then_leaves
  = [Connect 1; Connect 2; Disconnect 1; Fetch sample_feeds]
  ∧ st_escaped (run [Connect 1; Connect 2; Bytes 1 "x"] init)
    = [(HandlerTask 1, KeyError)]
  ∧ st_escaped without = []
  ∧ elements (st_clients with_frame) = [2; 1]
  ∧ elements (st_clients without) = [2]
  ∧ st_loop with_frame = Broadcasting [2; 1]
  ∧ st_loop without = Broadcasting [2].
Proof. by vm_compute. Qed.

(** * Further properties of the feed aggregator *)

Lemma dict_set_same {V} (k : string) (v : V) d :
  dict_lookup k d = Some v → dict_set k v d = d.
Proof.
  induction d as [|[k' v'] d IH]; simpl; [done|].
  destruct (String.eqb k k') eqn:E.
  - apply String.eqb_eq in E. subst k'. by intros [= ->].
  - intros H. by rewrite IH.
Qed.

Ltac lookups :=
  repeat first
    [ done
    | apply dict_lookup_set_eq
    | rewrite dict_lookup_set_ne by discriminate ].

(** X1. A cycle that gets the same answers as the one before it changes
    nothing: fetching twice with the same feeds leaves the store that
    fetching once leaves, from any store. *)
Theorem fetch_phase_idempotent (f : feeds) (st : store) :
  fst (fetch_phase f (fst (fetch_phase f st))) = fst (fetch_phase f st).
Proof.
  rewrite !fetch_phase_outcomes.
  destruct (eq_outcome f), (weather_outcome f), (crypto_outcome f); simpl;
    try done;
    repeat (rewrite dict_set_same; [|by lookups]); done.
Qed.

(** X2. When every service answers with a status other than 200, no body is
    read: the store is left as it was and nothing is printed, even where
    the body is not JSON. *)
Theorem no_200_no_change (f : feeds) (st : store) r1 r2 r3 :
  eq_get f = Ok r1 → weather_get f = Ok r2 → crypto_get f = Ok r3 →
  status_code r1 ≠ 200%Z → status_code r2 ≠ 200%Z → status_code r3 ≠ 200%Z →
  fetch_phase f st = (st, None).
Proof.
  intros H1 H2 H3 S1 S2 S3. rewrite fetch_phase_outcomes.
  unfold eq_outcome, weather_outcome, crypto_outcome, outcome_of.
  rewrite H1, H2, H3.
  apply Z.eqb_neq in S1, S2, S3. by rewrite S1, S2, S3.
Qed.

Lemma no_200_no_change_witness :
  fetch_phase all_refused stale_store = (stale_store, None).
Proof.
  apply (no_200_no_change all_refused stale_store
           (Response 404 (Ok sample_quakes))
           (Response 503 (Raise JSONDecodeError))
           (Response 301 (Ok sample_crypto)));
    first [reflexivity | discriminate].
Defined.

(** X3. The [except] clause prints exactly when one of the requests that
    were made raised: nothing is printed if and only if none of the three
    raises. *)
Theorem printed_iff_raised (f : feeds) (st : store) :
  snd (fetch_phase f st) = None
  ↔ raised (eq_outcome f) = false
    ∧ raised (weather_outcome f) = false
    ∧ raised (crypto_outcome f) = false.
Proof.
  rewrite fetch_phase_outcomes.
  destruct (eq_outcome f), (weather_outcome f), (crypto_outcome f); simpl;
    split; try done; intros (? & ? & ?); done.
Qed.

Lemma mapM_raise {A B} (f : A → result B) l a e :
  a ∈ l → f a = Raise e → ∃ e', mapM f l = Raise e'.
Proof.
  intros Hin Ha. induction l as [|b l IH]; [by apply elem_of_nil in Hin|].
  simpl. apply elem_of_cons in Hin as [<-|Hin].
  - rewrite Ha. eauto.
  - destruct (f b); simpl; [|eauto].
    destruct (IH Hin) as [e' ->]. eauto.
Qed.

(** X4. One feature that cannot be formatted discards the whole seismic
    answer: the lines of the good features are not stored, the two later
    requests are not made, and the store is left as it was. *)
Theorem bad_feature_discards_all f st resp body features items item e :
  eq_get f = Ok resp →
  status_code resp = 200%Z →
  json resp = Ok body →
  py_get body "features" (PList []) = Ok features →
  py_iter features = Ok items →
  item ∈ items →
  quake_line item = Raise e →
  ∃ e', fetch_phase f st = (st, Some e').
Proof.
  intros Hget Hs Hj Hf Hi Hin Hq.
  destruct (mapM_raise quake_line items item e Hin Hq) as [e' He'].
  exists e'. rewrite fetch_phase_outcomes.
  unfold eq_outcome, outcome_of, quakes_value, parse_quakes.
  rewrite Hget, Hs, Hj, Hf. simpl. rewrite Hi. simpl. by rewrite He'.
Qed.

Lemma bad_feature_discards_all_witness :
  ∃ e', fetch_phase (seismic_only one_bad_feature) stale_store
        = (stale_store, Some e').
Proof.
  apply (bad_feature_discards_all (seismic_only one_bad_feature) stale_store
           (Response 200 (Ok one_bad_feature)) one_bad_feature
           (PList [feature (PFloat "4.5") (PStr "10km N of X");
                   PDict [("type", PStr "Feature")]])
           [feature (PFloat "4.5") (PStr "10km N of X");
            PDict [("type", PStr "Feature")]]
           (PDict [("type", PStr "Feature")]) KeyError);
    try reflexivity.
  apply elem_of_cons. right. apply elem_of_cons. by left.
Defined.

(** X5. A seismic answer that is a dictionary without the key "features" is
    read as no events: the section is replaced by the empty list, whatever it
    held. *)
Theorem missing_features_clears f st resp d :
  eq_get f = Ok resp →
  status_code resp = 200%Z →
  json resp = Ok (PDict d) →
  dict_lookup "features" d = None →
  section "earthquakes" (fst (fetch_phase f st)) = Some (PList []).
Proof.
  intros Hget Hs Hj Hd.
  pose proof (earthquakes_after_fetch f st) as H.
  unfold eq_outcome, outcome_of, quakes_value, parse_quakes in H.
  rewrite Hget, Hs, Hj in H. simpl in H. rewrite Hd in H. exact H.
Qed.

Lemma missing_features_clears_witness :
  section "earthquakes"
    (fst (fetch_phase (seismic_only (PDict [("type", PStr "FeatureCollection")]))
            stale_store))
  = Some (PList []).
Proof.
  apply (missing_features_clears _ stale_store
           (Response 200 (Ok (PDict [("type", PStr "FeatureCollection")])))
           [("type", PStr "FeatureCollection")]);
    reflexivity.
Defined.

(** X6. The default of [.get("features", [])] stands in for a missing key
    only: with "features" present and null the [for] raises [TypeError], the
    store is left as it was and the error is printed. *)
Theorem null_features_raises f st resp d :
  eq_get f = Ok resp →
  status_code resp = 200%Z →
  json resp = Ok (PDict d) →
  dict_lookup "features" d = Some PNone →
  fetch_phase f st = (st, Some TypeError).
Proof.
  intros Hget Hs Hj Hd. rewrite fetch_phase_outcomes.
  unfold eq_outcome, outcome_of, quakes_value, parse_quakes.
  rewrite Hget, Hs, Hj. simpl. by rewrite Hd.
Qed.

Lemma null_features_raises_witness :
  fetch_phase (seismic_only (PDict [("features", PNone)])) stale_store
  = (stale_store, Some TypeError).
Proof.
  apply (null_features_raises _ stale_store
           (Response 200 (Ok (PDict [("features", PNone)])))
           [("features", PNone)]);
    reflexivity.
Defined.

(** X7. A feature whose "properties" has neither "mag" nor "place" is not an
    error: its line is "MNone - None". *)
Theorem missing_mag_place_line (fd pd : list (string * pyval)) :
  dict_lookup "properties" fd = Some (PDict pd) →
  dict_lookup "mag" pd = None →
  dict_lookup "place" pd = None →
  quake_line (PDict fd) = Ok "MNone - None".
Proof.
  intros Hp Hm Hl. unfold quake_line. simpl. rewrite Hp. simpl.
  by rewrite Hm, Hl.
Qed.

Lemma missing_mag_place_line_witness :
  quake_line (PDict [("properties", PDict [("time", PInt 0)])])
  = Ok "MNone - None".
Proof.
  apply (missing_mag_place_line [("properties", PDict [("time", PInt 0)])]
                                [("time", PInt 0)]);
    reflexivity.
Defined.

(** X8. [parse_weather] returns exactly on a dictionary whose
    "current_condition" is a list starting with a dictionary whose
    "weatherDesc" is a list starting with a dictionary that has "value".  It
    reads the first condition and the first description only; "temp_F" may be
    missing and is then None, "value" may not. *)
Theorem parse_weather_ok_iff (body v : pyval) :
  parse_weather body = Ok v
  ↔ ∃ bd cur rest dv more desc,
      body = PDict bd
      ∧ dict_lookup "current_condition" bd = Some (PList (PDict cur :: rest))
      ∧ dict_lookup "weatherDesc" cur = Some (PList (PDict dv :: more))
      ∧ dict_lookup "value" dv = Some desc
      ∧ v = PDict [("temp_F", default PNone (dict_lookup "temp_F" cur));
                   ("description", desc)].
Proof.
  split.
  - unfold parse_weather. intros H.
    destruct body as [| | | | |?|bd]; try discriminate H. simpl in H.
    destruct (dict_lookup "current_condition" bd) as [conds|] eqn:E1;
      [|discriminate H]. simpl in H.
    destruct conds as [| | | |s|[|c rest]|?]; try discriminate H.
    { simpl in H. destruct (String.get 0 s); discriminate H. }
    simpl in H. destruct c as [| | | | |?|cur]; try discriminate H. simpl in H.
    destruct (dict_lookup "weatherDesc" cur) as [descs|] eqn:E2;
      [|discriminate H]. simpl in H.
    destruct descs as [| | | |s|[|d0 more]|?]; try discriminate H.
    { simpl in H. destruct (String.get 0 s); discriminate H. }
    simpl in H. destruct d0 as [| | | | |?|dv]; try discriminate H. simpl in H.
    destruct (dict_lookup "value" dv) as [desc|] eqn:E3; [|discriminate H].
    simpl in H. injection H as <-.
    by exists bd, cur, rest, dv, more, desc.
  - intros (bd & cur & rest & dv & more & desc & -> & E1 & E2 & E3 & ->).
    unfold parse_weather. simpl. rewrite E1. simpl. rewrite E2. simpl.
    by rewrite E3.
Qed.

(** X9. [parse_crypto] returns exactly on a dictionary whose "bpi" is a
    dictionary whose "USD" is a dictionary; "rate" may be missing and is then
    None. *)
Theorem parse_crypto_ok_iff (body v : pyval) :
  parse_crypto body = Ok v
  ↔ ∃ bd bpi usd,
      body = PDict bd
      ∧ dict_lookup "bpi" bd = Some (PDict bpi)
      ∧ dict_lookup "USD" bpi = Some (PDict usd)
      ∧ v = PDict [("BTC_USD", default PNone (dict_lookup "rate" usd))].
Proof.
  split.
  - unfold parse_crypto. intros H.
    destruct body as [| | | | |?|bd]; try discriminate H. simpl in H.
    destruct (dict_lookup "bpi" bd) as [b|] eqn:E1; [|discriminate H].
    simpl in H. destruct b as [| | | | |?|bpi]; try discriminate H. simpl in H.
    destruct (dict_lookup "USD" bpi) as [u|] eqn:E2; [|discriminate H].
    simpl in H. destruct u as [| | | | |?|usd]; try discriminate H. simpl in H.
    injection H as <-. by exists bd, bpi, usd.
  - intros (bd & bpi & usd & -> & E1 & E2 & ->).
    unfold parse_crypto. simpl. rewrite E1. simpl. by rewrite E2.
Qed.

(** X10. A request never touches a key of the store other than its three
    sections. *)
Theorem fetch_phase_frame (f : feeds) (st : store) (k : string) :
  k ≠ "earthquakes" → k ≠ "weather" → k ≠ "crypto" →
  section k (fst (fetch_phase f st)) = section k st.
Proof.
  intros H1 H2 H3. rewrite fetch_phase_outcomes.
  destruct (eq_outcome f), (weather_outcome f), (crypto_outcome f); simpl;
    rewrite ?section_set_ne by done; done.
Qed.

Lemma fetch_phase_frame_witness :
  section "updated_at" (fst (fetch_phase sample_feeds (("updated_at", PInt 7) :: stale_store)))
  = Some (PInt 7).
Proof.
  rewrite (fetch_phase_frame sample_feeds (("updated_at", PInt 7) :: stale_store)
             "updated_at"); [reflexivity|discriminate..].
Defined.

(** * Further properties of the registry, the handlers and the loop *)

(** X11. Adding a handle that is not registered and removing it gives back
    the registry, without an exception. *)
Theorem add_remove_roundtrip (h : handle) (r : gset handle) :
  h ∉ r → set_remove h (set_add h r) = Ok r.
Proof.
  intros H. unfold set_add. rewrite set_remove_present by set_solver.
  f_equal. set_solver.
Qed.

Lemma add_remove_roundtrip_witness :
  set_remove 3 (set_add 3 {[1; 2]}) = Ok {[1; 2]}.
Proof.
  apply (add_remove_roundtrip 3 {[1; 2]}). vm_compute. discriminate.
Defined.

Lemma step_handler_inv ev s :
  registry_inv s → handler_inv s → handler_inv (step ev s).
Proof.
  unfold registry_inv, handler_inv. intros [Hc Hr] Hoa.
  destruct ev as [h|h m|h b|h|f|ok|]; simpl.
  - set_solver.
  - done.
  - case_decide; simpl; set_solver.
  - case_decide; [|done]. unfold disconnect, set_remove.
    case_decide; simpl; set_solver.
  - destruct (st_loop s); try done.
    unfold fetch. by destruct (fetch_phase f (st_store s)).
  - destruct (st_loop s) as [|[|h todo]| |]; try done.
    destruct ok; [done|]. unfold prune, set_remove.
    by case_decide.
  - by destruct (st_loop s).
Qed.

Lemma reachable_handler_inv tr : registry_inv (run tr init) ∧ handler_inv (run tr init).
Proof.
  apply (run_invariant (λ s, registry_inv s ∧ handler_inv s)).
  - repeat split; set_solver.
  - intros ev s [H1 H2]. split; [by apply step_registry_inv|by apply step_handler_inv].
Qed.

(** X12. How a handler ends.  In any reachable state, when an open handler
    sees its client disconnect, the handle is afterwards neither open nor
    registered; the handler ends with [KeyError] exactly when the loop has
    already pruned its client, and in that case the registry is not
    changed. *)
Theorem handler_end (tr : list event) (h : handle) :
  let s := run tr init in
  let s' := step (Disconnect h) s in
  h ∈ st_open s →
  (h ∉ st_open s') ∧ (h ∉ st_clients s')
  ∧ (h ∈ st_removed s →
     st_escaped s' = (st_escaped s ++ [(HandlerTask h, KeyError)])%list
     ∧ st_clients s' = st_clients s)
  ∧ (h ∉ st_removed s →
     st_escaped s' = st_escaped s ∧ st_clients s' = st_clients s ∖ {[h]}).
Proof.
  intros s s' Ho.
  destruct (reachable_handler_inv tr) as [[Hc Hr] Hoa].
  unfold handler_inv in Hoa. fold s in Hc, Hr, Hoa. subst s'. simpl.
  rewrite decide_True by done. unfold disconnect, set_remove.
  case_decide as Hin; simpl.
  - split_and!; [set_solver|set_solver| |done].
    intros Hrem. rewrite Hc in Hin. set_solver.
  - split_and!; [set_solver|done|done|].
    intros Hrem. exfalso. apply Hin. rewrite Hc. set_solver.
Qed.

Lemma handler_end_witness :
  1 ∈ st_open (run pruned_one init)
  ∧ st_escaped (step (Disconnect 1) (run pruned_one init))
    = [(HandlerTask 1, KeyError)].
Proof.
  assert (1 ∈ st_open (run pruned_one init)) as Ho by (vm_compute; reflexivity).
  split; [exact Ho|].
  refine (proj1 (proj1 (proj2 (proj2 (handler_end pruned_one 1 Ho))) _)).
  vm_compute. reflexivity.
Defined.

Lemma step_unregistered ev s (h : handle) :
  ev ≠ Connect h → h ∉ st_clients s → h ∉ st_clients (step ev s).
Proof.
  intros Hev Hn. destruct ev as [h'|h' m|h' b|h'|f|ok|]; simpl.
  - unfold set_add. assert (h ≠ h') by congruence. set_solver.
  - done.
  - by case_decide.
  - case_decide; [|done]. unfold disconnect, set_remove.
    case_decide; simpl; set_solver.
  - destruct (st_loop s); try done.
    unfold fetch. by destruct (fetch_phase f (st_store s)).
  - destruct (st_loop s) as [|[|h' todo]| |]; try done.
    destruct ok; [done|]. unfold prune, set_remove.
    case_decide; simpl; set_solver.
  - by destruct (st_loop s).
Qed.

(** X13. Only its own [clients.add] registers a handle.  A handle that is not
    in the registry, because it never connected or because its handler or
    the loop removed it, stays out of the registry and out of every later
    copy through any events other than its own connect. *)
Theorem unregistered_stays_out (tr : list event) (s : state) (h : handle) :
  Forall (λ ev, ev ≠ Connect h) tr →
  h ∉ st_clients s →
  (h ∉ st_clients (run tr s)) ∧ (h ∉ set_list (st_clients (run tr s))).
Proof.
  intros Hf Hn.
  assert (h ∉ st_clients (run tr s)) as H.
  { revert s Hn. induction tr as [|ev tr IH]; intros s Hn; [done|].
    apply Forall_cons in Hf as [Hev Hf]. rewrite run_cons.
    apply IH; [done|]. by apply step_unregistered. }
  split; [done|]. unfold set_list. by rewrite elem_of_elements.
Qed.

Lemma unregistered_stays_out_witness :
  1 ∉ st_clients (run [Wake; Connect 2; Fetch sample_feeds; Push true]
                    (run pruned_one init)).
Proof.
  refine (proj1 (unregistered_stays_out [Wake; Connect 2; Fetch sample_feeds; Push true]
                   (run pruned_one init) 1 _ _)).
  - repeat constructor; discriminate.
  - vm_compute. discriminate.
Defined.

(** X14. Whatever was sent to a client had exactly the three sections, a
    list of strings and two dictionaries. *)
Theorem sent_well_shaped (tr : list event) :
  Forall (λ p, well_shaped (snd p)) (st_sent (run tr init)).
Proof.
  apply (run_invariant
           (λ s, well_shaped (st_store s) ∧ Forall (λ p, well_shaped (snd p)) (st_sent s))).
  - split; [|constructor]. split_and!; [done|by exists []|by eexists..].
  - intros ev s [Hs Hf]. destruct ev as [h|h m|h b|h|f|ok|]; simpl.
    + done.
    + done.
    + by case_decide.
    + case_decide; [|done]. unfold disconnect. by destruct (set_remove _ _).
    + destruct (st_loop s); try done.
      unfold fetch. pose proof (fetch_phase_well_shaped f (st_store s) Hs) as H'.
      by destruct (fetch_phase f (st_store s)).
    + destruct (st_loop s) as [|[|h todo]| |]; try done.
      destruct ok; simpl.
      * split; [done|]. apply Forall_app. split; [done|]. by constructor.
      * unfold prune. by destruct (set_remove _ _).
    + by destruct (st_loop s).
Qed.



(** ** One pass of the loop under any interleaving *)

Lemma cycle_step ev s todo :
  in_cycle todo s → ev ≠ Wake →
  ∃ pre todo1,
    in_cycle todo1 (step ev s)
    ∧ st_store (step ev s) = st_store s
    ∧ st_sent (step ev s) = (st_sent s ++ map (λ h, (h, st_store s)) pre)%list
    ∧ ∀ served, served `sublist_of` todo1 → (pre ++ served)%list `sublist_of` todo.
Proof.
  intros Hc Hw.
  assert (st_loop (step ev s) = st_loop s → st_store (step ev s) = st_store s →
          st_sent (step ev s) = st_sent s →
          ∃ pre todo1,
            in_cycle todo1 (step ev s)
            ∧ st_store (step ev s) = st_store s
            ∧ st_sent (step ev s)
              = (st_sent s ++ map (λ h, (h, st_store s)) pre)%list
            ∧ ∀ served, served `sublist_of` todo1 →
                        (pre ++ served)%list `sublist_of` todo) as Hsame.
  { intros Hl Hst Hsn. exists [], todo. split_and!; [|done| |done].
    - unfold in_cycle. by rewrite Hl.
    - simpl. by rewrite app_nil_r. }
  destruct ev as [h|h m|h b|h|f|ok|]; [..|done].
  - by apply Hsame.
  - by apply Hsame.
  - apply Hsame; simpl; by case_decide.
  - apply Hsame; simpl; (case_decide; [|done]); unfold disconnect;
      by destruct (set_remove _ _).
  - apply Hsame; simpl; destruct Hc as [Hc|[e Hc]]; rewrite Hc; try done;
      by destruct todo.
  - destruct Hc as [Hc|[e Hc]]; [|apply Hsame; simpl; by rewrite Hc].
    destruct todo as [|h todo]; [apply Hsame; simpl; by rewrite Hc|].
    simpl in Hc. simpl. rewrite Hc. destruct ok.
    + exists [h], todo. simpl. split_and!; [by left|done|done|].
      intros served Hs. by apply sublist_skip.
    + unfold prune. destruct (set_remove h (st_clients s)) as [r|e]; simpl.
      * exists [], todo. simpl. split_and!; [by left|done|by rewrite app_nil_r|].
        intros served Hs. by apply sublist_cons.
      * exists [], todo. simpl. split_and!; [right; eauto|done|by rewrite app_nil_r|].
        intros served Hs. by apply sublist_cons.
Qed.

Lemma cycle_sends tr s todo :
  in_cycle todo s →
  Forall (λ ev, ev ≠ Wake) tr →
  ∃ served,
    served `sublist_of` todo
    ∧ st_sent (run tr s) = (st_sent s ++ map (λ h, (h, st_store s)) served)%list
    ∧ st_store (run tr s) = st_store s.
Proof.
  revert s todo. induction tr as [|ev tr IH]; intros s todo Hc Hf.
  - exists []. split_and!; [apply sublist_nil_l|by rewrite app_nil_r|done].
  - apply Forall_cons in Hf as [Hw Hf].
    destruct (cycle_step ev s todo Hc Hw) as (pre & todo1 & Hc1 & Hst & Hsn & Hsub).
    destruct (IH _ _ Hc1 Hf) as (served & Hs1 & Hs2 & Hs3).
    exists (pre ++ served)%list. rewrite run_cons. split_and!.
    + by apply Hsub.
    + rewrite Hs2, Hsn, Hst, map_app. by rewrite <- app_assoc.
    + by rewrite Hs3.
Qed.

(** X16. One cycle, whatever the handlers do meanwhile and however the
    sends end.  From the fetch to the next wake-up the loop sends to handles
    of its copy only, in the copy's order, to each at most once, and every one
    of these sends carries the same store: the one the fetch left. *)
Theorem cycle_serves_copy_once (f : feeds) (tr : list event) (s : state) :
  st_loop s = Fetching →
  Forall (λ ev, ev ≠ Wake) tr →
  ∃ served,
    served `sublist_of` set_list (st_clients s)
    ∧ NoDup served
    ∧ st_sent (run (Fetch f :: tr) s)
      = (st_sent s
         ++ map (λ h, (h, fst (fetch_phase f (st_store s)))) served)%list.
Proof.
  intros Hl Hf.
  destruct (fetch_step_store f s Hl) as (Hst & Hcl & Hsent).
  pose proof (fetch_step_loop f s Hl) as Hl1.
  destruct (cycle_sends tr (step (Fetch f) s) (set_list (st_clients s)))
    as (served & Hs1 & Hs2 & Hs3); [by left|done|].
  exists served. split_and!; [done| |].
  - eapply sublist_NoDup; [|done]. unfold set_list. apply NoDup_elements.
  - rewrite run_cons, Hs2, Hsent, Hst. done.
Qed.

Lemma cycle_serves_copy_once_witness :
  ∃ served,
    served `sublist_of` set_list (st_clients two_connected)
    ∧ NoDup served
    ∧ st_sent (run (Fetch seismic_down :: late_joiner) two_connected)
      = (st_sent two_connected
         ++ map (λ h, (h, fst (fetch_phase seismic_down (st_store two_connected))))
              served)%list.
Proof.
  apply (cycle_serves_copy_once seismic_down late_joiner two_connected).
  - reflexivity.
  - unfold late_joiner. repeat constructor; discriminate.
Defined.

(** X17. A client that connects while the loop is serving its copy is not
    sent that cycle's store: nothing is sent to a handle that was not
    registered when the fetch ended, until the loop has slept. *)
Theorem late_client_waits (f : feeds) (tr : list event) (s : state) (h : handle) :
  st_loop s = Fetching →
  Forall (λ ev, ev ≠ Wake) tr →
  h ∉ st_clients s →
  ∃ new, st_sent (run (Fetch f :: tr) s) = (st_sent s ++ new)%list
         ∧ ∀ x, (h, x) ∉ new.
Proof.
  intros Hl Hf Hn.
  destruct (fetch_step_store f s Hl) as (Hst & Hcl & Hsent).
  pose proof (fetch_step_loop f s Hl) as Hl1.
  destruct (cycle_sends tr (step (Fetch f) s) (set_list (st_clients s)))
    as (served & Hs1 & Hs2 & _); [by left|done|].
  eexists. split; [by rewrite run_cons, Hs2, Hsent|].
  intros x Hin. apply list_elem_of_fmap in Hin as (h' & Heq & Hin').
  injection Heq as -> _. apply Hn.
  apply elem_of_elements. by eapply elem_of_sublist.
Qed.

Lemma late_client_waits_witness :
  ∃ new, st_sent (run (Fetch sample_feeds :: late_joiner) two_connected)
         = (st_sent two_connected ++ new)%list
         ∧ ∀ x, (3, x) ∉ new.
Proof.
  apply (late_client_waits sample_feeds late_joiner two_connected 3).
  - reflexivity.
  - unfold late_joiner. repeat constructor; discriminate.
  - vm_compute. discriminate.
Defined.

(** ** When the loop cannot end *)

(** X18. Feeds alone cannot end the loop: in a run where no send fails, the
    loop never ends with an exception, whatever the feeds answer and whatever
    the clients do. *)
Theorem no_failed_send_no_crash (tr : list event) :
  Forall (λ ev, ev ≠ Push false) tr →
  ∀ e, st_loop (run tr init) ≠ Crashed e.
Proof.
  induction tr as [|ev tr IH] using rev_ind; intros Hf e; [done|].
  apply Forall_app in Hf as [Hf Hev]. rewrite Forall_singleton in Hev.
  rewrite run_snoc. intros Hc.
  destruct (crash_only_by_prune ev (run tr init) e Hc (IH Hf)) as [Heq _].
  by apply Hev.
Qed.

Lemma no_failed_send_no_crash_witness :
  st_loop (run feeds_down_sends_fine init) ≠ Crashed KeyError.
Proof.
  apply (no_failed_send_no_crash feeds_down_sends_fine).
  unfold feeds_down_sends_fine. repeat constructor; discriminate.
Defined.

Lemma todo_registered_next (c : gset handle) todo :
  NoDup todo → (∀ h, h ∈ todo → h ∈ c) →
  match next_iteration todo with
  | Broadcasting todo' => NoDup todo' ∧ ∀ h, h ∈ todo' → h ∈ c
  | Crashed _ => False
  | _ => True
  end.
Proof. intros Hnd Hin. destruct todo; [done|]. by split. Qed.

Lemma step_todo_registered ev s :
  (∀ h, ev ≠ Disconnect h) →
  todo_registered s ∧ (∀ e, (LoopTask, e) ∉ st_escaped s) →
  todo_registered (step ev s) ∧ (∀ e, (LoopTask, e) ∉ st_escaped (step ev s)).
Proof.
  intros Hev [Ht He].
  destruct s as [st c l o sn p esc a r]. unfold todo_registered in *. simpl in *.
  destruct ev as [h|h m|h b|h|f|ok|]; simpl.
  - split; [|done].
    destruct l as [|todo| |]; try done. destruct Ht as [Hnd Hin].
    split; [done|]. intros h' ?. unfold set_add. set_solver.
  - done.
  - case_decide; [|done]. simpl. split; [done|].
    intros e Hin. apply elem_of_app in Hin as [Hin|Hin]; [by eapply He|].
    by apply list_elem_of_singleton in Hin.
  - by destruct (Hev h).
  - destruct l; try done. unfold fetch. simpl.
    destruct (fetch_phase f st). split; [|done].
    apply todo_registered_next; unfold set_list.
    + apply NoDup_elements.
    + intros h ?. by apply elem_of_elements.
  - destruct l as [|[|h todo]| |]; try done. destruct Ht as [Hnd Hin].
    apply NoDup_cons in Hnd as [Hh Hnd].
    destruct ok; simpl.
    + split; [|done]. apply todo_registered_next; [done|].
      intros h' ?. apply Hin. set_solver.
    + unfold prune. simpl.
      rewrite set_remove_present by (apply Hin; set_solver).
      split; [|done]. apply todo_registered_next; [done|].
      intros h' ?. assert (h' ∈ c) by (apply Hin; set_solver). set_solver.
  - destruct l; try done.
Qed.

(** X19. Failed sends alone cannot end the loop either: in a run where no
    handler sees a disconnect, every handle of the copy is still registered
    when the loop prunes it, so [remove] never raises there: the loop never
    ends and no exception is recorded for it, whatever the feeds answer, the
    sends do and the clients send. *)
Theorem no_disconnect_no_crash (tr : list event) :
  Forall (λ ev, ∀ h, ev ≠ Disconnect h) tr →
  (∀ e, st_loop (run tr init) ≠ Crashed e)
  ∧ (∀ e, (LoopTask, e) ∉ st_escaped (run tr init)).
Proof.
  intros Hf.
  assert (todo_registered (run tr init)
          ∧ (∀ e, (LoopTask, e) ∉ st_escaped (run tr init))) as [Ht He].
  { induction tr as [|ev tr IH] using rev_ind.
    - split; [done|]. intros e. simpl. by intros ?%elem_of_nil.
    - apply Forall_app in Hf as [Hf Hev]. rewrite Forall_singleton in Hev.
      rewrite run_snoc. apply step_todo_registered; [done|by apply IH]. }
  split; [|done]. intros e Hc. unfold todo_registered in Ht. by rewrite Hc in Ht.
Qed.

Lemma no_disconnect_no_crash_witness :
  st_loop (run sends_fail_nobody_leaves init) ≠ Crashed KeyError.
Proof.
  refine (proj1 (no_disconnect_no_crash sends_fail_nobody_leaves _) KeyError).
  unfold sends_fail_nobody_leaves. repeat constructor; discriminate.
Defined.
